(** * detect_session: sniffing a freshly accepted connection for TLS

    A shallow embedding of [include/http/detect_session.hpp].  The class owns
    one accepted TCP stream, asks Beast to look at the first bytes under a
    30 second timeout and then hands the stream and the bytes read so far to
    either an SSL session or a plain session.

    The three member functions [run], [on_run] and [on_detect] are embedded
    as functions on the object state that also return the calls they make.
    A small executor model ([World]) interprets those calls: it keeps the
    queue of the stream's executor, the outstanding detection, the
    [shared_ptr] use count of the detector and the trace of everything that
    happened. *)

From Stdlib Require Import String.
From Stdlib Require Import Strings.Byte.
From Stdlib Require Import ZArith List Bool Lia Arith.
Import ListNotations.
Local Open Scope Z_scope.

(** ** Data *)

Definition bytes := list byte.

(** Addresses of objects that live outside the detector. *)
Definition addr := nat.

(** A socket descriptor. *)
Definition socket := nat.

(** Time points and durations, in milliseconds. *)
Definition time := Z.

Definition seconds (n : Z) : Z := 1000 * n.

(** [beast::error_code]: a value in a category; [if(ec)] holds for a non-zero
    value. *)
Inductive error_category := system_category | beast_category.

Record error_code := ErrorCode {
  ec_value : Z;
  ec_category : error_category
}.

Definition ec_success : error_code := ErrorCode 0 system_category.

(** [beast::error::timeout]. *)
Definition ec_timeout : error_code := ErrorCode 1 beast_category.

Definition failed (ec : error_code) : bool := negb (ec_value ec =? 0).

(** [beast::tcp_stream]: the socket it owns ([None] once moved from) and the
    expiry of its timer ([None]: never). *)
Record tcp_stream := TcpStream {
  sock : option socket;
  expiry : option time
}.

(** The stream a socket is moved into: its timer never expires. *)
Definition stream_of_socket (s : socket) : tcp_stream := TcpStream (Some s) None.

(** [stream_.expires_after(d)] at time [now]. *)
Definition expires_after (now : time) (d : Z) (s : tcp_stream) : tcp_stream :=
  TcpStream (sock s) (Some (now + d)).

(** The data members of [detect_session].  [ctx_] is a reference and
    [doc_root_] a shared pointer: both are addresses of objects owned by the
    server. *)
Record detect_session := DetectSession {
  stream_ : tcp_stream;
  ctx_ : addr;
  doc_root_ : addr;
  buffer_ : bytes
}.

(** What the two session constructors are given. *)
Record ssl_http_session := SslHttpSession {
  ssl_stream : tcp_stream;
  ssl_ctx : addr;
  ssl_buffer : bytes;
  ssl_doc_root : addr
}.

Record plain_http_session := PlainHttpSession {
  plain_stream : tcp_stream;
  plain_buffer : bytes;
  plain_doc_root : addr
}.

(** The completion handlers the detector binds to itself. *)
Inductive handler :=
| h_on_run
| h_on_detect (ec : error_code) (result : bool).

(** Everything observable: the calls the member functions make, and what the
    executor and the stream do on their behalf. *)
Inductive event :=
| Dispatch_on_run                         (* net::dispatch(executor, on_run) *)
| Expires_after (d : Z)                   (* stream_.expires_after(d) *)
| Async_detect_ssl                        (* beast::async_detect_ssl(...) *)
| Fail (ec : error_code) (what : string)  (* fail(ec, what) *)
| Ssl_session_run (s : ssl_http_session)
| Plain_session_run (s : plain_http_session)
| Invoke (h : handler)                    (* the executor calls a handler *)
| Read_some (chunk : bytes)               (* bytes read into buffer_ *)
| Socket_closed (s : socket).             (* the stream destructor *)

(** ** The member functions *)

(** The constructor: the socket is moved into the stream, the two
    configuration references are stored, the buffer is default constructed. *)
Definition make_detect_session (s : socket) (ctx doc_root : addr) : detect_session :=
  DetectSession (stream_of_socket s) ctx doc_root [].

(** [std::move(stream_)] and [std::move(buffer_)] into a session constructor
    leave both members empty; [ctx_] and [doc_root_] are passed without a
    move and stay. *)
Definition moved_from (d : detect_session) : detect_session :=
  DetectSession (TcpStream None None) (ctx_ d) (doc_root_ d) [].

(** Modelled from the spec: [fail], declared in [http_session.hpp], which is
    not among the sources.  It is a reporting hook called with the error and
    a tag; it only reports and returns to its caller. *)
Definition fail (ec : error_code) (what : string) : list event :=
  [Fail ec what].

(** Modelled from the spec: [std::make_shared<ssl_http_session>(...)->run()]
    and its plain counterpart; the two classes are declared in headers that
    are not among the sources.  The new session takes what it is given and
    its start entry point is called. *)
Definition launch_ssl (s : ssl_http_session) : list event :=
  [Ssl_session_run s].

Definition launch_plain (s : plain_http_session) : list event :=
  [Plain_session_run s].

Definition run (d : detect_session) : detect_session * list event :=
  (d, [Dispatch_on_run]).

Definition on_run (now : time) (d : detect_session) : detect_session * list event :=
  (DetectSession (expires_after now (seconds 30) (stream_ d))
                 (ctx_ d) (doc_root_ d) (buffer_ d),
   [Expires_after (seconds 30); Async_detect_ssl]).

Definition on_detect (ec : error_code) (result : bool) (d : detect_session)
  : detect_session * list event :=
  if failed ec then
    (d, fail ec "detect")
  else if result then
    (moved_from d,
     launch_ssl
       (SslHttpSession (stream_ d) (ctx_ d) (buffer_ d) (doc_root_ d)))
  else
    (moved_from d,
     launch_plain
       (PlainHttpSession (stream_ d) (buffer_ d) (doc_root_ d))).

(** ** Classifying events *)

Definition is_ssl_start (e : event) : bool :=
  match e with Ssl_session_run _ => true | _ => false end.

Definition is_plain_start (e : event) : bool :=
  match e with Plain_session_run _ => true | _ => false end.

Definition is_failure (e : event) : bool :=
  match e with Fail _ _ => true | _ => false end.

Definition is_on_detect (e : event) : bool :=
  match e with Invoke (h_on_detect _ _) => true | _ => false end.

Definition is_on_run (e : event) : bool :=
  match e with Invoke h_on_run => true | _ => false end.

Definition is_expires_after (e : event) : bool :=
  match e with Expires_after _ => true | _ => false end.

Definition is_async_detect (e : event) : bool :=
  match e with Async_detect_ssl => true | _ => false end.

Definition is_close (e : event) : bool :=
  match e with Socket_closed _ => true | _ => false end.

Definition count (p : event -> bool) (l : list event) : nat :=
  length (filter p l).

(** The configuration references a session launch carries. *)
Definition ctx_given (e : event) : option addr :=
  match e with
  | Ssl_session_run s => Some (ssl_ctx s)
  | _ => None
  end.

Definition doc_root_given (e : event) : option addr :=
  match e with
  | Ssl_session_run s => Some (ssl_doc_root s)
  | Plain_session_run s => Some (plain_doc_root s)
  | _ => None
  end.

(** The stream and the buffer a session launch carries. *)
Definition stream_given (e : event) : option tcp_stream :=
  match e with
  | Ssl_session_run s => Some (ssl_stream s)
  | Plain_session_run s => Some (plain_stream s)
  | _ => None
  end.

Definition buffer_given (e : event) : option bytes :=
  match e with
  | Ssl_session_run s => Some (ssl_buffer s)
  | Plain_session_run s => Some (plain_buffer s)
  | _ => None
  end.

(** The chunks read from the socket, in the order of the trace. *)
Fixpoint reads_of (l : list event) : bytes :=
  match l with
  | [] => []
  | Read_some c :: l' => c ++ reads_of l'
  | _ :: l' => reads_of l'
  end.

(** ** What the peer sends *)

(** The connection delivers chunks of bytes, or breaks with a transport
    error (a non-zero value in some category), each at some time. *)
Inductive arrival :=
| Data (at_time : time) (chunk : bytes)
| Broken (at_time : time) (errno : positive) (cat : error_category).

Definition arrival_time (a : arrival) : time :=
  match a with
  | Data t _ => t
  | Broken t _ _ => t
  end.

Definition is_data (a : arrival) : bool :=
  match a with Data _ _ => true | Broken _ _ _ => false end.

Fixpoint data_of (l : list arrival) : bytes :=
  match l with
  | [] => []
  | Data _ c :: l' => c ++ data_of l'
  | Broken _ _ _ :: l' => data_of l'
  end.

(** Objects the configuration references point to. *)
Inductive object :=
| Ssl_context (pem : string)
| Doc_root (path : string).

Definition memory := addr -> option object.

(** ** The detection operation and the executor *)

Section Executor.

(** [beast::detail::is_tls_client_hello]: [Some true] when the bytes can only
    be a TLS client hello, [Some false] when they cannot be one, [None] when
    more bytes are needed.  The development is parametric in it; Beast's own
    test is given further down as [tls_client_hello]. *)
Variable is_tls_client_hello : bytes -> option bool.

(** How an [async_detect_ssl] ends. *)
Record detection := Detection {
  det_ec : error_code;
  det_result : bool;
  det_buffer : bytes;          (* the dynamic buffer when the handler is called *)
  det_reads : list bytes;      (* the chunks read, oldest first *)
  det_rest : list arrival;     (* what the peer sends after that *)
  det_time : time
}.

Definition expired (deadline : option time) (t : time) : bool :=
  match deadline with
  | Some d => d <=? t
  | None => false
  end.

(** [beast::async_detect_ssl(stream, buffer, handler)]: test what the buffer
    holds; while undecided read some more into it.  A read that is still
    pending when the stream's timer expires ends the operation with
    [beast::error::timeout], a transport error ends it with that error.
    [None]: the operation never completes (no timer and a silent peer).
    Beast shuts the socket down when the timer fires; the descriptor goes
    with the stream, and the model records the close there, in [destroy]. *)
Fixpoint detect_ssl (deadline : option time) (now : time) (buf : bytes)
    (reads : list bytes) (wire : list arrival) : option detection :=
  match is_tls_client_hello buf with
  | Some r => Some (Detection ec_success r buf reads wire now)
  | None =>
    match wire with
    | [] =>
      match deadline with
      | Some d => Some (Detection ec_timeout false buf reads [] (Z.max now d))
      | None => None
      end
    | a :: rest =>
      if expired deadline (arrival_time a) then
        Some (Detection ec_timeout false buf reads wire
                        (Z.max now (arrival_time a)))
      else
        match a with
        | Data t chunk =>
          detect_ssl deadline (Z.max now t) (buf ++ chunk) (reads ++ [chunk]) rest
        | Broken t errno cat =>
          Some (Detection (ErrorCode (Z.pos errno) cat) false buf reads rest
                          (Z.max now t))
        end
    end
  end.

(** The detector together with what surrounds it: the clock, the memory that
    holds the server's configuration, the [shared_ptr] use count of the
    detector ([this_] is [None] once it is destroyed), the executor of its
    stream, the outstanding detection, what the peer still has to deliver and
    the trace. *)
Record world := World {
  clock : time;
  mem : memory;
  this_ : option detect_session;
  use_count : nat;
  in_executor : bool;      (* the caller of run() runs inside the executor *)
  queue : list handler;    (* handlers queued on the executor *)
  detecting : bool;        (* an async_detect_ssl is outstanding *)
  wire : list arrival;
  trace : list event
}.

Definition emit (es : list event) (w : world) : world :=
  let (c, m, d, n, i, q, b, l, tr) := w in World c m d n i q b l (tr ++ es).

Definition set_this (d : option detect_session) (w : world) : world :=
  let (c, m, _, n, i, q, b, l, tr) := w in World c m d n i q b l tr.

Definition set_use_count (n : nat) (w : world) : world :=
  let (c, m, d, _, i, q, b, l, tr) := w in World c m d n i q b l tr.

Definition set_queue (q : list handler) (w : world) : world :=
  let (c, m, d, n, i, _, b, l, tr) := w in World c m d n i q b l tr.

Definition set_detecting (b : bool) (w : world) : world :=
  let (c, m, d, n, i, q, _, l, tr) := w in World c m d n i q b l tr.

Definition set_clock (t : time) (w : world) : world :=
  let (_, m, d, n, i, q, b, l, tr) := w in World t m d n i q b l tr.

(** [this->shared_from_this()]: one more owner. *)
Definition acquire (w : world) : world :=
  set_use_count (S (use_count w)) w.

(** The implicit destructor: the members go, and a stream that still owns
    its socket closes it. *)
Definition destroy (w : world) : world :=
  match this_ w with
  | None => w
  | Some d =>
    set_this None
      (emit (match sock (stream_ d) with
             | Some s => [Socket_closed s]
             | None => []
             end) w)
  end.

(** An owner goes away; the last one destroys the detector. *)
Definition release (w : world) : world :=
  match use_count w with
  | O => w
  | S O => destroy (set_use_count 0 w)
  | S n => set_use_count n w
  end.

(** A call made from inside a handler.  Starting a detection stores a handler
    that owns the detector; every call is traced. *)
Definition perform (w : world) (c : event) : world :=
  match c with
  | Async_detect_ssl => set_detecting true (acquire (emit [c] w))
  | _ => emit [c] w
  end.

(** The executor calls a bound handler and then drops it, and with it the
    [shared_ptr] it holds. *)
Definition invoke (h : handler) (w : world) : world :=
  match this_ w with
  | None => w
  | Some d =>
    let (d', calls) :=
      match h with
      | h_on_run => on_run (clock w) d
      | h_on_detect ec result => on_detect ec result d
      end in
    release (fold_left perform calls (set_this (Some d') (emit [Invoke h] w)))
  end.

(** [net::dispatch(ex, h)]: Asio calls [h] before returning when the calling
    thread already runs inside [ex], and queues it on [ex] otherwise. *)
Definition dispatch (h : handler) (w : world) : world :=
  if in_executor w then invoke h w else set_queue (queue w ++ [h]) w.

(** A call made from [run]. *)
Definition perform_run (w : world) (c : event) : world :=
  match c with
  | Dispatch_on_run => dispatch h_on_run (acquire (emit [c] w))
  | _ => perform w c
  end.

Definition call_run (w : world) : world :=
  match this_ w with
  | None => w
  | Some d =>
    let (d', calls) := run d in
    fold_left perform_run calls (set_this (Some d') w)
  end.

(** The listener: [std::make_shared<detect_session>(socket, ctx, doc_root)],
    owned by a temporary; [start] calls [run()] through it and drops it. *)
Definition accept (now : time) (m : memory) (inside : bool)
    (incoming : list arrival) (s : socket) (ctx doc_root : addr) : world :=
  World now m (Some (make_detect_session s ctx doc_root)) 1 inside [] false
        incoming [].

Definition start (w : world) : world := release (call_run w).

(** The executor runs the handler at the head of its queue. *)
Definition poll (w : world) : world :=
  match queue w with
  | [] => w
  | h :: q => invoke h (set_queue q w)
  end.

(** The outstanding detection completes: the bytes it read are in [buffer_],
    and its handler is called with the outcome. *)
Definition complete (w : world) : world :=
  if detecting w then
    match this_ w with
    | None => w
    | Some d =>
      match detect_ssl (expiry (stream_ d)) (clock w) (buffer_ d) [] (wire w) with
      | None => w
      | Some o =>
        invoke (h_on_detect (det_ec o) (det_result o))
          (World (Z.max (clock w) (det_time o)) (mem w)
                 (Some (DetectSession (stream_ d) (ctx_ d) (doc_root_ d)
                                      (det_buffer o)))
                 (use_count w) (in_executor w) (queue w) false (det_rest o)
                 (trace w ++ map Read_some (det_reads o)))
      end
    end
  else w.

(** What the environment may do, in any order and any number of times. *)
Inductive action :=
| Tick (dt : N)    (* time passes *)
| Poll             (* the executor runs a queued handler *)
| Complete.        (* the outstanding detection completes *)

Definition step (w : world) (a : action) : world :=
  match a with
  | Tick dt => set_clock (clock w + Z.of_N dt) w
  | Poll => poll w
  | Complete => complete w
  end.

Definition run_schedule (sched : list action) (w : world) : world :=
  fold_left step sched w.

End Executor.

(** ** Beast's test for a TLS client hello

    The test [async_detect_ssl] applies in Boost.Beast, on the first nine
    bytes of the buffer.  It instantiates the parameter of the development
    above for concrete runs. *)

Definition u8 (b : byte) : Z := Z.of_N (Byte.to_N b).

Definition byte_at (v : bytes) (i : nat) : Z := u8 (nth i v x00).

Definition tls_client_hello (buf : bytes) : option bool :=
  let v := firstn 9 buf in
  let n := List.length v in
  (* can't do much without any bytes *)
  if (n <? 1)%nat then None
  (* the first byte must be 0x16, a handshake record *)
  else if negb (byte_at v 0 =? 0x16) then Some false
  (* five bytes are needed to know the record payload size *)
  else if (n <? 5)%nat then None
  else
    let length := Z.shiftl (byte_at v 3) 8 + byte_at v 4 in
    (* a client hello payload is at least 34 bytes *)
    if length <? 34 then Some false
    (* six bytes are needed to know the handshake type *)
    else if (n <? 6)%nat then None
    (* the handshake type must be 0x01, client_hello *)
    else if negb (byte_at v 5 =? 0x01) then Some false
    (* nine bytes are needed to know the message payload size *)
    else if (n <? 9)%nat then None
    else
      let size :=
        Z.shiftl (byte_at v 6) 16 + Z.shiftl (byte_at v 7) 8 + byte_at v 8 in
      (* the message payload can't be bigger than the enclosing record *)
      if length <? size + 4 then Some false
      else Some true.

(** ** Streams that begin with a client hello *)

Section Preamble.

Variable is_tls_client_hello : bytes -> option bool.

(** Some prefix of the stream is recognised as a client hello. *)
Definition begins_with_client_hello (stream : bytes) : bool :=
  existsb
    (fun n =>
       match is_tls_client_hello (firstn n stream) with
       | Some true => true
       | _ => false
       end)
    (seq 0 (S (List.length stream))).

(** A decision of the test is not changed by further bytes. *)
Definition stable : Prop :=
  forall (p q : bytes) (r : bool),
    is_tls_client_hello p = Some r -> is_tls_client_hello (p ++ q) = Some r.

End Preamble.

(** The arrivals a read can still see before the timer of the stream
    expires at [d]. *)
Fixpoint arrived_before (d : time) (wire : list arrival) : list arrival :=
  match wire with
  | [] => []
  | a :: rest =>
    if d <=? arrival_time a then [] else a :: arrived_before d rest
  end.

(** ** The life of one detector

    Whatever the environment does after the listener has created a detector
    and called [run()], the world is in one of three shapes: [on_run] is
    queued, the detection is outstanding, or the detector is gone. *)

Section Shapes.

Variable is_tls_client_hello : bytes -> option bool.
Variables (now0 : time) (m : memory) (inside : bool).
Variables (incoming : list arrival) (s : socket) (ctx doc_root : addr).

(** The detector once [on_run] has run at time [t]. *)
Definition armed (t : time) (buf : bytes) : detect_session :=
  DetectSession (TcpStream (Some s) (Some (t + seconds 30))) ctx doc_root buf.

Definition trace_queued : list event := [Dispatch_on_run].

Definition trace_armed : list event :=
  [Dispatch_on_run; Invoke h_on_run; Expires_after (seconds 30);
   Async_detect_ssl].

(** What the completion of detection [o] adds to the trace. *)
Definition trace_completion (t : time) (o : detection) : list event :=
  map Read_some (det_reads o)
  ++ [Invoke (h_on_detect (det_ec o) (det_result o))]
  ++ snd (on_detect (det_ec o) (det_result o) (armed t (det_buffer o)))
  ++ (if failed (det_ec o) then [Socket_closed s] else []).

Inductive reached : world -> Prop :=
| reached_queued (c : time) :
    now0 <= c -> inside = false ->
    reached (World c m (Some (make_detect_session s ctx doc_root)) 1 false
                   [h_on_run] false incoming trace_queued)
| reached_detecting (c t : time) :
    now0 <= t <= c ->
    reached (World c m (Some (armed t [])) 1 inside [] true incoming
                   trace_armed)
| reached_done (c t t' : time) (o : detection) :
    now0 <= t <= c ->
    detect_ssl is_tls_client_hello (Some (t + seconds 30)) t' [] [] incoming
      = Some o ->
    reached (World c m None 0 inside [] false (det_rest o)
                   (trace_armed ++ trace_completion t o)).

(** The listener has created the detector and called [run()]. *)
Definition started : world :=
  start (accept now0 m inside incoming s ctx doc_root).

(** Every world the environment can bring about from there. *)
Definition after (sched : list action) : world :=
  run_schedule is_tls_client_hello sched started.

End Shapes.

(** ** The claims of the specification that the code does not meet as
    worded, stated on the model *)

(** A session launch selected by [p] is given both configuration
    references. *)
Definition launched_with_whole_config (p : event -> bool) (ctx doc_root : addr)
    (tr : list event) : Prop :=
  exists e, In e tr /\ p e = true /\
            ctx_given e = Some ctx /\ doc_root_given e = Some doc_root.

(** Every session launch is given both configuration references. *)
Definition passes_whole_config (ctx doc_root : addr) (tr : list event) : Prop :=
  forall e, In e tr -> is_ssl_start e || is_plain_start e = true ->
            ctx_given e = Some ctx /\ doc_root_given e = Some doc_root.

(** [run()] does nothing but queue [on_run]: no timer is set and no
    detection is started before it returns. *)
Definition run_only_schedules (w : world) : Prop :=
  queue (call_run w) = queue w ++ [h_on_run] /\
  count is_expires_after (trace (call_run w)) = count is_expires_after (trace w) /\
  count is_async_detect (trace (call_run w)) = count is_async_detect (trace w).

(** ** Concrete runs *)

Module Scenario.

Definition ctx : addr := 7%nat.
Definition doc_root : addr := 9%nat.
Definition fd : socket := 5%nat.

Definition server_memory : memory :=
  fun a =>
    match a with
    | 7%nat => Some (Ssl_context "server.pem")
    | 9%nat => Some (Doc_root "/var/www")
    | _ => None
    end.

Definition crlf : bytes := [x0d; x0a].

(** A plain request. *)
Definition get_request : bytes :=
  list_byte_of_string "GET / HTTP/1.1" ++ crlf
  ++ list_byte_of_string "Host: x" ++ crlf ++ crlf.

(** A TLS record header (handshake, TLS 1.0, 512 bytes) followed by the
    start of a client hello of 508 bytes. *)
Definition client_hello : bytes :=
  [x16; x03; x01; x02; x00; x01; x00; x01; xfc; x03; x03].

(** The peer sends the request in one piece, 100 ms after acceptance. *)
Definition plain_peer : list arrival := [Data 200 get_request].

(** The peer sends the client hello in two pieces. *)
Definition secure_peer : list arrival :=
  [Data 200 (firstn 3 client_hello); Data 300 (skipn 3 client_hello)].

(** The peer sends three bytes and breaks with ECONNRESET. *)
Definition broken_peer : list arrival :=
  [Data 200 (firstn 3 client_hello); Broken 300 104 system_category].

(** The peer sends three bytes and the rest after the deadline. *)
Definition slow_peer : list arrival :=
  [Data 200 (firstn 3 client_hello); Data 31000 (skipn 3 client_hello)].

(** The peer sends the client hello one byte at a time. *)
Definition dripping_peer : list arrival :=
  map (fun b => Data 200 [b]) client_hello.

(** The world after the whole chain has run for [peer]. *)
Definition finished (inside : bool) (peer : list arrival) : world :=
  after tls_client_hello 100 server_memory inside peer fd ctx doc_root
        [Poll; Complete].

End Scenario.

(** ** Ownership, order and time *)

Definition is_launch (e : event) : bool :=
  is_ssl_start e || is_plain_start e.


(** The handlers that hold a [shared_ptr] to the detector: those queued on
    the executor and the one stored in an outstanding detection. *)
Definition owners (w : world) : nat :=
  (List.length (queue w) + (if detecting w then 1 else 0))%nat.



Section Worlds.

Variables (m : memory) (inside : bool).
Variables (incoming : list arrival) (s : socket) (ctx doc_root : addr).

(** The world while the detection started at [t] is outstanding. *)
Definition world_detecting (c t : time) : world :=
  World c m (Some (armed s ctx doc_root t [])) 1 inside [] true incoming
        trace_armed.

(** The world once that detection has completed as [o]. *)
Definition world_done (c t : time) (o : detection) : world :=
  World c m None 0 inside [] false (det_rest o)
        (trace_armed ++ trace_completion s ctx doc_root t o).

End Worlds.

(** Unfolding the bookkeeping of the executor. *)
Ltac world_simpl :=
  unfold release, destroy, perform, acquire, emit, set_this, set_use_count,
    set_queue, set_detecting, set_clock; simpl.

(** Splitting the conditionals of a hypothesis. *)
Ltac split_ifs :=
  repeat match goal with
         | H : context [if ?c then _ else _] |- _ =>
             let E := fresh "E" in destruct c eqn:E; try discriminate H
         end.

(** ** Facts about counting and reading traces *)

Lemma count_app (p : event -> bool) (l1 l2 : list event) :
  count p (l1 ++ l2) = (count p l1 + count p l2)%nat.
Proof.
  unfold count. rewrite filter_app. apply length_app.
Qed.

Lemma count_reads (p : event -> bool) (chunks : list bytes) :
  (forall c, p (Read_some c) = false) ->
  count p (map Read_some chunks) = 0%nat.
Proof.
  intros Hp. unfold count.
  induction chunks as [|c chunks IH]; simpl.
  - reflexivity.
  - rewrite Hp. exact IH.
Qed.

Lemma reads_of_app (l1 l2 : list event) :
  reads_of (l1 ++ l2) = reads_of l1 ++ reads_of l2.
Proof.
  induction l1 as [|e l1 IH]; simpl.
  - reflexivity.
  - destruct e; try exact IH. rewrite IH. apply app_assoc.
Qed.

Lemma reads_of_map (chunks : list bytes) :
  reads_of (map Read_some chunks) = concat chunks.
Proof.
  induction chunks as [|c chunks IH]; simpl.
  - reflexivity.
  - now rewrite IH.
Qed.

Lemma data_of_app (l1 l2 : list arrival) :
  data_of (l1 ++ l2) = data_of l1 ++ data_of l2.
Proof.
  induction l1 as [|a l1 IH]; simpl.
  - reflexivity.
  - destruct a; rewrite IH.
    + apply app_assoc.
    + reflexivity.
Qed.

(** ** Facts about the detection operation *)

Section DetectionFacts.

Variable is_tls_client_hello : bytes -> option bool.

(** With a timer set the operation always completes. *)
Lemma detect_ssl_completes (d : time) (wire : list arrival) :
  forall now buf reads, exists o, detect_ssl is_tls_client_hello (Some d) now buf reads wire = Some o.
Proof.
  induction wire as [|a wire IH]; intros now buf reads; simpl.
  - destruct (is_tls_client_hello buf); eauto.
  - destruct (is_tls_client_hello buf); eauto.
    destruct (d <=? arrival_time a); eauto.
    destruct a; eauto.
Qed.

(** What the operation read is a prefix of what the peer sent, the buffer
    grew by exactly those bytes, in order, and an operation that did not fail
    met no transport error. *)
Lemma detect_ssl_consumes (deadline : option time) (wire : list arrival) :
  forall now buf reads o,
    detect_ssl is_tls_client_hello deadline now buf reads wire = Some o ->
    exists consumed,
      wire = consumed ++ det_rest o /\
      det_buffer o = buf ++ data_of consumed /\
      concat (det_reads o) = concat reads ++ data_of consumed /\
      (failed (det_ec o) = false -> forallb is_data consumed = true).
Proof.
  induction wire as [|a wire IH]; intros now buf reads o; simpl.
  - destruct (is_tls_client_hello buf).
    + intros [= <-]. exists []. simpl. now rewrite !app_nil_r.
    + destruct deadline; [|discriminate].
      intros [= <-]. exists []. simpl. now rewrite !app_nil_r.
  - destruct (is_tls_client_hello buf).
    + intros [= <-]. exists []. simpl. now rewrite !app_nil_r.
    + destruct (expired deadline (arrival_time a)).
      * intros [= <-]. exists []. simpl. now rewrite !app_nil_r.
      * destruct a as [t chunk|t errno cat].
        -- intros H. destruct (IH _ _ _ _ H) as (consumed & Hw & Hb & Hr & Hd).
           exists (Data t chunk :: consumed). simpl.
           rewrite Hb, Hr, concat_app, <- !app_assoc. simpl.
           rewrite app_nil_r. repeat split; try assumption.
           now rewrite Hw.
        -- intros [= <-]. exists [Broken t errno cat]. simpl.
           rewrite !app_nil_r. repeat split. discriminate.
Qed.

(** An operation that did not fail reports what the test says about the
    buffer it hands over. *)
Lemma detect_ssl_decided (deadline : option time) (wire : list arrival) :
  forall now buf reads o,
    detect_ssl is_tls_client_hello deadline now buf reads wire = Some o ->
    failed (det_ec o) = false ->
    is_tls_client_hello (det_buffer o) = Some (det_result o) /\
    det_ec o = ec_success.
Proof.
  induction wire as [|a wire IH]; intros now buf reads o; simpl.
  - destruct (is_tls_client_hello buf) eqn:E.
    + intros [= <-]. simpl. auto.
    + destruct deadline; [|discriminate]. intros [= <-]. discriminate.
  - destruct (is_tls_client_hello buf) eqn:E.
    + intros [= <-]. simpl. auto.
    + destruct (expired deadline (arrival_time a)).
      * intros [= <-]. discriminate.
      * destruct a as [t chunk|t errno cat].
        -- apply IH.
        -- intros [= <-]. discriminate.
Qed.

(** An operation that failed was not decided: it reports [false], and its
    error is the timeout or a transport error. *)
Lemma detect_ssl_failed (deadline : option time) (wire : list arrival) :
  forall now buf reads o,
    detect_ssl is_tls_client_hello deadline now buf reads wire = Some o ->
    failed (det_ec o) = true ->
    det_result o = false /\
    is_tls_client_hello (det_buffer o) = None /\
    (det_ec o = ec_timeout \/
     exists t errno cat,
       In (Broken t errno cat) wire /\ det_ec o = ErrorCode (Z.pos errno) cat).
Proof.
  induction wire as [|a wire IH]; intros now buf reads o; simpl.
  - destruct (is_tls_client_hello buf) eqn:E.
    + intros [= <-]. discriminate.
    + destruct deadline; [|discriminate]. intros [= <-]. simpl. auto.
  - destruct (is_tls_client_hello buf) eqn:E.
    + intros [= <-]. discriminate.
    + destruct (expired deadline (arrival_time a)).
      * intros [= <-]. simpl. auto.
      * destruct a as [t chunk|t errno cat].
        -- intros H Hf. destruct (IH _ _ _ _ H Hf) as (Hr & Hn & [Ht|Hb]).
           ++ auto.
           ++ destruct Hb as (t' & e' & c' & Hin & He).
              repeat split; try assumption. right. exists t', e', c'. auto.
        -- intros [= <-]. simpl. repeat split; try assumption.
           right. exists t, errno, cat. auto.
Qed.

End DetectionFacts.

(** ** The three shapes are all there is *)

Section Lifecycle.

Variable is_tls_client_hello : bytes -> option bool.
Variables (now0 : time) (m : memory) (inside : bool).
Variables (incoming : list arrival) (s : socket) (ctx doc_root : addr).

Lemma reached_started :
  reached is_tls_client_hello now0 m inside incoming s ctx doc_root
    (started now0 m inside incoming s ctx doc_root).
Proof.
  unfold started, start, accept, call_run. simpl.
  unfold dispatch. simpl.
  assert (Hd := reached_detecting is_tls_client_hello now0 m inside incoming
                  s ctx doc_root now0 now0).
  assert (Hq := reached_queued is_tls_client_hello now0 m inside incoming
                  s ctx doc_root now0).
  destruct inside.
  - apply Hd. lia.
  - apply Hq; [lia | reflexivity].
Qed.

Lemma reached_step (w : world) (a : action) :
  reached is_tls_client_hello now0 m inside incoming s ctx doc_root w ->
  reached is_tls_client_hello now0 m inside incoming s ctx doc_root
    (step is_tls_client_hello w a).
Proof.
  intros H. destruct H as [c Hc Hi | c t Ht | c t t' o Ht Ho].
  - (* on_run is queued *)
    destruct a as [dt | | ]; simpl.
    + apply reached_queued; [lia | assumption].
    + unfold poll, invoke. simpl.
      assert (Hd := reached_detecting is_tls_client_hello now0 m inside
                      incoming s ctx doc_root c c).
      rewrite Hi in Hd |- *. apply Hd. lia.
    + apply reached_queued; assumption.
  - (* the detection is outstanding *)
    destruct a as [dt | | ]; simpl.
    + apply (reached_detecting _ _ _ _ _ _ _ _ _ t). lia.
    + apply reached_detecting. assumption.
    + unfold complete. simpl.
      destruct (detect_ssl_completes is_tls_client_hello (t + seconds 30)
                  incoming c [] []) as [o Ho].
      unfold time in Ho. rewrite Ho. unfold invoke. simpl.
      assert (Hr := reached_done is_tls_client_hello now0 m inside incoming
                      s ctx doc_root (Z.max c (det_time o)) t c o).
      unfold trace_completion, on_detect, armed in Hr.
      unfold on_detect.
      destruct (failed (det_ec o)); [|destruct (det_result o)];
        simpl in *; world_simpl; rewrite <- ?app_assoc; simpl;
        apply Hr; solve [lia | exact Ho].
  - (* the detector is gone *)
    destruct a as [dt | | ]; simpl.
    + apply (reached_done _ _ _ _ _ _ _ _ _ t t' o); [lia | exact Ho].
    + apply (reached_done _ _ _ _ _ _ _ _ _ t t' o); assumption.
    + apply (reached_done _ _ _ _ _ _ _ _ _ t t' o); assumption.
Qed.

Lemma reached_schedule (sched : list action) :
  forall w,
    reached is_tls_client_hello now0 m inside incoming s ctx doc_root w ->
    reached is_tls_client_hello now0 m inside incoming s ctx doc_root
      (run_schedule is_tls_client_hello sched w).
Proof.
  induction sched as [|a sched IH]; intros w H; simpl.
  - exact H.
  - apply IH. apply reached_step. exact H.
Qed.

Lemma reached_after (sched : list action) :
  reached is_tls_client_hello now0 m inside incoming s ctx doc_root
    (after is_tls_client_hello now0 m inside incoming s ctx doc_root sched).
Proof.
  apply reached_schedule, reached_started.
Qed.

End Lifecycle.

(** ** Facts about the three shapes *)

Section ShapeFacts.

Variable is_tls_client_hello : bytes -> option bool.
Variables (now0 : time) (m : memory) (inside : bool).
Variables (incoming : list arrival) (s : socket) (ctx doc_root : addr).

(** The three ways a completion can look. *)
Lemma trace_completion_cases (t : time) (o : detection) :
  (failed (det_ec o) = true /\
   trace_completion s ctx doc_root t o =
     map Read_some (det_reads o)
     ++ [Invoke (h_on_detect (det_ec o) (det_result o));
         Fail (det_ec o) "detect"; Socket_closed s]) \/
  (failed (det_ec o) = false /\ det_result o = true /\
   trace_completion s ctx doc_root t o =
     map Read_some (det_reads o)
     ++ [Invoke (h_on_detect (det_ec o) true);
         Ssl_session_run
           (SslHttpSession (TcpStream (Some s) (Some (t + seconds 30)))
                           ctx (det_buffer o) doc_root)]) \/
  (failed (det_ec o) = false /\ det_result o = false /\
   trace_completion s ctx doc_root t o =
     map Read_some (det_reads o)
     ++ [Invoke (h_on_detect (det_ec o) false);
         Plain_session_run
           (PlainHttpSession (TcpStream (Some s) (Some (t + seconds 30)))
                             (det_buffer o) doc_root)]).
Proof.
  unfold trace_completion, on_detect.
  destruct (failed (det_ec o)); [|destruct (det_result o)]; simpl; auto.
Qed.

(** Counting in a trace that ends with a completion. *)
Lemma count_done (p : event -> bool) (t : time) (o : detection) :
  (forall c, p (Read_some c) = false) ->
  count p (trace_armed ++ trace_completion s ctx doc_root t o) =
  (count p trace_armed
   + count p [Invoke (h_on_detect (det_ec o) (det_result o))]
   + count p (snd (on_detect (det_ec o) (det_result o)
                             (armed s ctx doc_root t (det_buffer o))))
   + count p (if failed (det_ec o) then [Socket_closed s] else []))%nat.
Proof.
  intros Hp. unfold trace_completion.
  rewrite !count_app, (count_reads p _ Hp). lia.
Qed.

(** Where an invocation of [on_detect] can sit in a trace. *)
Lemma on_detect_in_done (t : time) (o : detection) (ec : error_code) (r : bool) :
  In (Invoke (h_on_detect ec r))
     (trace_armed ++ trace_completion s ctx doc_root t o) ->
  ec = det_ec o /\ r = det_result o.
Proof.
  intros H. apply in_app_or in H. destruct H as [H|H].
  - simpl in H. intuition discriminate.
  - destruct (trace_completion_cases t o) as [(_ & E)|[(_ & Hr & E)|(_ & Hr & E)]];
      rewrite E in H; apply in_app_or in H; destruct H as [H|H];
      try (apply in_map_iff in H; destruct H as (? & ? & _); discriminate);
      simpl in H; destruct H as [H|[H|H]];
      try discriminate; try contradiction;
      try (destruct H as [H|H]; try discriminate; try contradiction);
      injection H as <- <-; auto.
Qed.

(** A session launch in a trace is the one the completion made. *)
Lemma launch_in_done (t : time) (o : detection) (e : event) :
  In e (trace_armed ++ trace_completion s ctx doc_root t o) ->
  is_ssl_start e || is_plain_start e = true ->
  failed (det_ec o) = false /\
  e = (if det_result o
       then Ssl_session_run
              (SslHttpSession (TcpStream (Some s) (Some (t + seconds 30)))
                              ctx (det_buffer o) doc_root)
       else Plain_session_run
              (PlainHttpSession (TcpStream (Some s) (Some (t + seconds 30)))
                                (det_buffer o) doc_root)).
Proof.
  intros H He. apply in_app_or in H. destruct H as [H|H].
  - simpl in H.
    repeat (destruct H as [<-|H]; [discriminate He|]). contradiction.
  - destruct (trace_completion_cases t o) as [(_ & E)|[(Hf & Hr & E)|(Hf & Hr & E)]];
      rewrite E in H; apply in_app_or in H; destruct H as [H|H];
      try (apply in_map_iff in H; destruct H as (? & <- & _); discriminate He);
      simpl in H;
      repeat (destruct H as [<-|H]; [try discriminate He|]);
      try contradiction; rewrite Hr; auto.
Qed.

End ShapeFacts.

(** ** The dispatch made by the completion handler *)

(** Every call of [on_detect] makes exactly one of the three calls. *)
Lemma on_detect_one_outcome (ec : error_code) (r : bool) (d : detect_session) :
  (count is_ssl_start (snd (on_detect ec r d))
   + count is_plain_start (snd (on_detect ec r d))
   + count is_failure (snd (on_detect ec r d)) = 1)%nat.
Proof.
  unfold on_detect. destruct (failed ec); [|destruct r]; reflexivity.
Qed.

(** C1. On every schedule the completion handler of a detector is called at
    most once, and exactly once as soon as the executor has run the chain;
    every call of it has exactly one of the three outcomes (SSL session
    started, plain session started, failure reported), so that the trace of a
    detector holds as many outcomes as calls of the handler. *)
Theorem detector_exactly_one_outcome :
  forall (is_hello : bytes -> option bool) (now : time) (m : memory)
         (inside : bool) (incoming : list arrival) (s : socket)
         (ctx doc_root : addr) (sched : list action),
    let tr := trace (after is_hello now m inside incoming s ctx doc_root sched) in
    (forall ec r d,
        count is_ssl_start (snd (on_detect ec r d))
        + count is_plain_start (snd (on_detect ec r d))
        + count is_failure (snd (on_detect ec r d)) = 1)%nat /\
    (count is_on_detect tr <= 1)%nat /\
    (count is_ssl_start tr + count is_plain_start tr + count is_failure tr
     = count is_on_detect tr)%nat /\
    count is_on_detect
      (trace (after is_hello now m inside incoming s ctx doc_root
                    (sched ++ [Poll; Complete]))) = 1%nat.
Proof.
  intros is_hello now m inside incoming s ctx doc_root sched tr.
  split; [exact on_detect_one_outcome|].
  assert (Hdone : forall w,
             reached is_hello now m inside incoming s ctx doc_root w ->
             this_ w = None -> count is_on_detect (trace w) = 1%nat).
  { intros w [c Hc Hi | c t Ht | c t t' o Ht Ho]; cbn [trace this_];
      intros Hn; try discriminate Hn.
    rewrite count_done by reflexivity.
    unfold on_detect. destruct (failed (det_ec o)); [|destruct (det_result o)];
      reflexivity. }
  subst tr.
  pose proof (reached_after is_hello now m inside incoming s ctx doc_root sched)
    as H.
  split; [|split].
  - destruct H as [c Hc Hi | c t Ht | c t t' o Ht Ho]; cbn [trace];
      try (cbv; lia).
    rewrite count_done by reflexivity.
    unfold on_detect. destruct (failed (det_ec o)); [|destruct (det_result o)];
      cbv; lia.
  - destruct H as [c Hc Hi | c t Ht | c t t' o Ht Ho]; cbn [trace];
      try reflexivity.
    rewrite !count_done by reflexivity.
    unfold on_detect. destruct (failed (det_ec o)); [|destruct (det_result o)];
      reflexivity.
  - unfold after in *. unfold run_schedule in *. rewrite fold_left_app.
    set (w := fold_left (step is_hello) sched _) in *.
    apply Hdone.
    + apply (reached_schedule _ _ _ _ _ _ _ _ [Poll; Complete]). exact H.
    + destruct H as [c Hc Hi | c t Ht | c t t' o Ht Ho]; simpl; try reflexivity.
      * unfold poll, invoke. simpl. world_simpl. unfold complete. simpl.
        destruct (detect_ssl_completes is_hello (c + seconds 30)
                    incoming c [] []) as [o Ho].
        unfold time in Ho. rewrite Ho. unfold invoke. simpl.
        unfold on_detect.
        destruct (failed (det_ec o)); [|destruct (det_result o)];
          simpl; world_simpl; reflexivity.
      * unfold complete. simpl.
        destruct (detect_ssl_completes is_hello (t + seconds 30)
                    incoming c [] []) as [o Ho].
        unfold time in Ho. rewrite Ho. unfold invoke. simpl.
        unfold on_detect.
        destruct (failed (det_ec o)); [|destruct (det_result o)];
          simpl; world_simpl; reflexivity.
Qed.

(** ** Streams and decisions *)

Lemma tls_client_hello_stable : stable tls_client_hello.
Proof.
  intros p q r. unfold tls_client_hello.
  do 9 (destruct p as [|? p];
        [ simpl; unfold byte_at; simpl nth;
          intros H; split_ifs;
          repeat match goal with
                 | E : _ = true |- _ => rewrite E; clear E
                 | E : _ = false |- _ => rewrite E; clear E
                 end; solve [exact H | discriminate H] | ]).
  simpl. intros H. exact H.
Qed.

Section Decisions.

Variable is_tls_client_hello : bytes -> option bool.

Lemma begins_with_client_hello_spec (stream : bytes) :
  begins_with_client_hello is_tls_client_hello stream = true <->
  exists n, (n <= List.length stream)%nat /\
            is_tls_client_hello (firstn n stream) = Some true.
Proof.
  unfold begins_with_client_hello. rewrite existsb_exists. split.
  - intros (n & Hin & Hn). exists n. apply in_seq in Hin. split; [lia|].
    destruct (is_tls_client_hello (firstn n stream)) as [[|]|];
      try discriminate; reflexivity.
  - intros (n & Hle & Hn). exists n. split.
    + apply in_seq. lia.
    + now rewrite Hn.
Qed.

(** The buffer of a detection that started from an empty buffer is a prefix
    of what the peer sends. *)
Lemma detect_ssl_prefix (deadline : option time) (wire : list arrival)
    (now : time) (reads : list bytes) (o : detection) :
  detect_ssl is_tls_client_hello deadline now [] reads wire = Some o ->
  data_of wire = det_buffer o ++ data_of (det_rest o).
Proof.
  intros H.
  destruct (detect_ssl_consumes _ _ _ _ _ _ _ H) as (consumed & Hw & Hb & _).
  rewrite Hb. simpl. rewrite Hw at 1. apply data_of_app.
Qed.

(** A stream that begins with a client hello is classified as one, however
    it is cut into reads. *)
Lemma detect_ssl_secure (deadline : option time) (wire : list arrival)
    (now : time) (reads : list bytes) (o : detection) :
  stable is_tls_client_hello ->
  begins_with_client_hello is_tls_client_hello (data_of wire) = true ->
  detect_ssl is_tls_client_hello deadline now [] reads wire = Some o ->
  failed (det_ec o) = false ->
  det_result o = true.
Proof.
  intros Hst Hb H Hf.
  apply begins_with_client_hello_spec in Hb. destruct Hb as (n & _ & Hn).
  destruct (detect_ssl_decided _ _ _ _ _ _ _ H Hf) as (Hd & _).
  rewrite (detect_ssl_prefix _ _ _ _ _ H) in Hn.
  set (b := det_buffer o) in *. set (r := data_of (det_rest o)) in *.
  rewrite firstn_app in Hn.
  destruct (Nat.le_gt_cases n (List.length b)) as [Hle|Hgt].
  - (* the hello ends inside the buffer *)
    replace (n - List.length b)%nat with 0%nat in Hn by lia.
    simpl in Hn. rewrite app_nil_r in Hn.
    apply (Hst _ (skipn n b)) in Hn. rewrite firstn_skipn in Hn.
    congruence.
  - (* the buffer ends inside the hello *)
    rewrite firstn_all2 in Hn by lia.
    apply (Hst _ (firstn (n - List.length b) r)) in Hd. congruence.
Qed.

(** A stream that does not begin with a client hello is not classified as
    one. *)
Lemma detect_ssl_plain (deadline : option time) (wire : list arrival)
    (now : time) (reads : list bytes) (o : detection) :
  begins_with_client_hello is_tls_client_hello (data_of wire) = false ->
  detect_ssl is_tls_client_hello deadline now [] reads wire = Some o ->
  failed (det_ec o) = false ->
  det_result o = false.
Proof.
  intros Hb H Hf.
  destruct (detect_ssl_decided _ _ _ _ _ _ _ H Hf) as (Hd & _).
  destruct (det_result o) eqn:Hr; [|reflexivity].
  assert (Hyes : begins_with_client_hello is_tls_client_hello (data_of wire)
                 = true).
  { apply begins_with_client_hello_spec.
    exists (List.length (det_buffer o)).
    rewrite (detect_ssl_prefix _ _ _ _ _ H). split.
    - rewrite length_app. lia.
    - rewrite firstn_app, Nat.sub_diag, firstn_all. simpl.
      now rewrite app_nil_r. }
  congruence.
Qed.

(** When what arrives before the deadline neither decides nor breaks the
    connection, the operation ends with the timeout. *)
Lemma detect_ssl_timeout (d : time) (wire : list arrival) :
  forall now buf reads,
    detect_ssl is_tls_client_hello None now buf reads (arrived_before d wire)
      = None ->
    exists o,
      detect_ssl is_tls_client_hello (Some d) now buf reads wire = Some o /\
      det_ec o = ec_timeout /\ det_result o = false.
Proof.
  induction wire as [|a wire IH]; intros now buf reads; simpl.
  - destruct (is_tls_client_hello buf); [discriminate|].
    intros _. eexists. split; [reflexivity|]. simpl. auto.
  - destruct (d <=? arrival_time a) eqn:E; simpl.
    + destruct (is_tls_client_hello buf); [discriminate|].
      intros _. eexists. split; [reflexivity|]. simpl. auto.
    + destruct (is_tls_client_hello buf); [discriminate|].
      destruct a as [t chunk|t errno cat]; [apply IH | discriminate].
Qed.

End Decisions.

(** ** What a completed detector leaves in its trace *)

Section DoneFacts.

Variable is_tls_client_hello : bytes -> option bool.
Variables (now0 : time) (m : memory) (inside : bool).
Variables (incoming : list arrival) (s : socket) (ctx doc_root : addr).

(** A trace in which [on_detect] was called is the trace of a finished
    detector. *)
Lemma on_detect_called (w : world) (ec : error_code) (r : bool) :
  reached is_tls_client_hello now0 m inside incoming s ctx doc_root w ->
  In (Invoke (h_on_detect ec r)) (trace w) ->
  exists c t t' o,
    now0 <= t <= c /\
    detect_ssl is_tls_client_hello (Some (t + seconds 30)) t' [] [] incoming
      = Some o /\
    ec = det_ec o /\ r = det_result o /\
    w = World c m None 0 inside [] false (det_rest o)
              (trace_armed ++ trace_completion s ctx doc_root t o).
Proof.
  intros [c Hc Hi | c t Ht | c t t' o Ht Ho]; cbn [trace]; intros Hin.
  - simpl in Hin. intuition discriminate.
  - simpl in Hin. intuition discriminate.
  - destruct (on_detect_in_done _ _ _ _ _ _ _ Hin) as (-> & ->).
    exists c, t, t', o. auto.
Qed.

(** A trace in which a session was launched is the trace of a finished
    detector whose detection did not fail. *)
Lemma launch_made (w : world) (e : event) :
  reached is_tls_client_hello now0 m inside incoming s ctx doc_root w ->
  In e (trace w) ->
  is_ssl_start e || is_plain_start e = true ->
  exists c t t' o,
    now0 <= t <= c /\
    detect_ssl is_tls_client_hello (Some (t + seconds 30)) t' [] [] incoming
      = Some o /\
    failed (det_ec o) = false /\
    w = World c m None 0 inside [] false (det_rest o)
              (trace_armed ++ trace_completion s ctx doc_root t o) /\
    e = (if det_result o
         then Ssl_session_run
                (SslHttpSession (TcpStream (Some s) (Some (t + seconds 30)))
                                ctx (det_buffer o) doc_root)
         else Plain_session_run
                (PlainHttpSession (TcpStream (Some s) (Some (t + seconds 30)))
                                  (det_buffer o) doc_root)).
Proof.
  intros [c Hc Hi | c t Ht | c t t' o Ht Ho]; cbn [trace]; intros Hin He.
  - simpl in Hin.
    repeat (destruct Hin as [<-|Hin]; [discriminate He|]). contradiction.
  - simpl in Hin.
    repeat (destruct Hin as [<-|Hin]; [discriminate He|]). contradiction.
  - destruct (launch_in_done _ _ _ _ _ _ Hin He) as (Hf & ->).
    exists c, t, t', o. auto.
Qed.

(** The bytes read, as the trace shows them, are the buffer at completion. *)
Lemma reads_of_done (t t' : time) (o : detection) :
  detect_ssl is_tls_client_hello (Some (t + seconds 30)) t' [] [] incoming
    = Some o ->
  reads_of (trace_armed ++ trace_completion s ctx doc_root t o) = det_buffer o.
Proof.
  intros Ho.
  destruct (detect_ssl_consumes _ _ _ _ _ _ _ Ho) as (consumed & _ & Hb & Hr & _).
  simpl in Hb, Hr. rewrite Hb, <- Hr.
  destruct (trace_completion_cases s ctx doc_root t o)
    as [(_ & E)|[(_ & _ & E)|(_ & _ & E)]];
    rewrite E, !reads_of_app, reads_of_map; simpl; now rewrite app_nil_r.
Qed.

End DoneFacts.

(** ** Dispatch to the SSL session *)

(** C2. When the bytes the peer sends begin with a client hello and the
    detection completes without an error, the result is [true] and
    [on_detect] launches the SSL session, exactly once and nothing else, with
    the stream that owns the socket, the context reference, the bytes read so
    far and the document root; the stream and the buffer are moved, so the
    detector keeps neither and its destruction does not close the socket. *)
Theorem secure_stream_starts_ssl_session :
  forall (is_hello : bytes -> option bool) (now : time) (m : memory)
         (inside : bool) (incoming : list arrival) (s : socket)
         (ctx doc_root : addr) (sched : list action)
         (ec : error_code) (r : bool),
    stable is_hello ->
    begins_with_client_hello is_hello (data_of incoming) = true ->
    In (Invoke (h_on_detect ec r))
       (trace (after is_hello now m inside incoming s ctx doc_root sched)) ->
    failed ec = false ->
    let tr := trace (after is_hello now m inside incoming s ctx doc_root sched) in
    r = true /\
    (forall d,
        on_detect ec r d =
        (moved_from d,
         [Ssl_session_run
            (SslHttpSession (stream_ d) (ctx_ d) (buffer_ d) (doc_root_ d))]) /\
        sock (stream_ (moved_from d)) = None /\
        buffer_ (moved_from d) = []) /\
    (exists t,
        now <= t /\
        In (Ssl_session_run
              (SslHttpSession (TcpStream (Some s) (Some (t + seconds 30)))
                              ctx (reads_of tr) doc_root)) tr) /\
    count is_ssl_start tr = 1%nat /\
    count is_plain_start tr = 0%nat /\
    count is_failure tr = 0%nat /\
    count is_close tr = 0%nat.
Proof.
  intros is_hello now m inside incoming s ctx doc_root sched ec r
         Hst Hb Hin Hf tr.
  subst tr.
  pose proof (reached_after is_hello now m inside incoming s ctx doc_root sched)
    as H.
  destruct (on_detect_called _ _ _ _ _ _ _ _ _ _ _ H Hin)
    as (c & t & t' & o & Ht & Ho & -> & -> & Hw).
  pose proof (detect_ssl_secure _ _ _ _ _ _ Hst Hb Ho Hf) as Hr.
  rewrite Hw. cbn [trace].
  rewrite (reads_of_done _ _ _ _ _ _ _ _ Ho).
  rewrite !count_done by reflexivity.
  split; [exact Hr|]. split.
  - intros d. unfold on_detect. rewrite Hf, Hr. auto.
  - destruct (trace_completion_cases s ctx doc_root t o)
      as [(Hf' & _)|[(_ & _ & E)|(_ & Hr' & _)]];
      [congruence | | congruence].
    split.
    + exists t. split; [lia|]. rewrite E.
      apply in_or_app. right. apply in_or_app. right. simpl. auto.
    + unfold on_detect. rewrite Hf, Hr. simpl. auto.
Qed.

Lemma secure_stream_starts_ssl_session_witness :
  stable tls_client_hello /\
  begins_with_client_hello tls_client_hello (data_of Scenario.secure_peer)
    = true /\
  In (Invoke (h_on_detect ec_success true))
     (trace (Scenario.finished true Scenario.secure_peer)) /\
  failed ec_success = false /\
  count is_ssl_start (trace (Scenario.finished true Scenario.secure_peer))
    = 1%nat.
Proof.
  assert (Hin : In (Invoke (h_on_detect ec_success true))
                   (trace (Scenario.finished true Scenario.secure_peer))).
  { vm_compute. repeat (try (left; reflexivity); right). }
  split; [exact tls_client_hello_stable|].
  split; [reflexivity|]. split; [exact Hin|]. split; [reflexivity|].
  destruct (secure_stream_starts_ssl_session
              tls_client_hello 100 Scenario.server_memory true
              Scenario.secure_peer Scenario.fd Scenario.ctx Scenario.doc_root
              [Poll; Complete] ec_success true
              tls_client_hello_stable eq_refl Hin eq_refl)
    as (_ & _ & _ & H & _).
  exact H.
Defined.

(** ** Dispatch to the plain session *)

(** C3, as the code has it. When the bytes the peer sends do not begin with a
    client hello and the detection completes without an error, the result is
    [false] and [on_detect] launches the plain session, exactly once and
    nothing else, with the stream that owns the socket, the bytes read so far
    and the document root reference.  The context reference is not among
    what the plain session is given. *)
Theorem plain_stream_starts_plain_session :
  forall (is_hello : bytes -> option bool) (now : time) (m : memory)
         (inside : bool) (incoming : list arrival) (s : socket)
         (ctx doc_root : addr) (sched : list action)
         (ec : error_code) (r : bool),
    begins_with_client_hello is_hello (data_of incoming) = false ->
    In (Invoke (h_on_detect ec r))
       (trace (after is_hello now m inside incoming s ctx doc_root sched)) ->
    failed ec = false ->
    let tr := trace (after is_hello now m inside incoming s ctx doc_root sched) in
    r = false /\
    (forall d,
        on_detect ec r d =
        (moved_from d,
         [Plain_session_run
            (PlainHttpSession (stream_ d) (buffer_ d) (doc_root_ d))])) /\
    (exists t,
        now <= t /\
        In (Plain_session_run
              (PlainHttpSession (TcpStream (Some s) (Some (t + seconds 30)))
                                (reads_of tr) doc_root)) tr) /\
    count is_plain_start tr = 1%nat /\
    count is_ssl_start tr = 0%nat /\
    count is_failure tr = 0%nat /\
    (forall e, In e tr -> is_plain_start e = true ->
               ctx_given e = None /\ doc_root_given e = Some doc_root).
Proof.
  intros is_hello now m inside incoming s ctx doc_root sched ec r
         Hb Hin Hf tr.
  subst tr.
  pose proof (reached_after is_hello now m inside incoming s ctx doc_root sched)
    as H.
  destruct (on_detect_called _ _ _ _ _ _ _ _ _ _ _ H Hin)
    as (c & t & t' & o & Ht & Ho & -> & -> & Hw).
  pose proof (detect_ssl_plain _ _ _ _ _ _ Hb Ho Hf) as Hr.
  split; [exact Hr|]. split.
  { intros d. unfold on_detect. rewrite Hf, Hr. reflexivity. }
  split; [|split; [|split; [|split]]].
  - rewrite Hw. cbn [trace]. rewrite (reads_of_done _ _ _ _ _ _ _ _ Ho).
    destruct (trace_completion_cases s ctx doc_root t o)
      as [(Hf' & _)|[(_ & Hr' & _)|(_ & _ & E)]];
      [congruence | congruence | ].
    exists t. split; [lia|]. rewrite E.
    apply in_or_app. right. apply in_or_app. right. simpl. auto.
  - rewrite Hw. cbn [trace]. rewrite count_done by reflexivity.
    unfold on_detect. rewrite Hf, Hr. reflexivity.
  - rewrite Hw. cbn [trace]. rewrite count_done by reflexivity.
    unfold on_detect. rewrite Hf, Hr. reflexivity.
  - rewrite Hw. cbn [trace]. rewrite count_done by reflexivity.
    unfold on_detect. rewrite Hf, Hr. reflexivity.
  - intros e He Hp.
    assert (Hl : is_ssl_start e || is_plain_start e = true)
      by (rewrite Hp; apply orb_true_r).
    destruct (launch_made _ _ _ _ _ _ _ _ _ _ H He Hl)
      as (_ & t1 & _ & o1 & _ & _ & _ & _ & ->).
    destruct (det_result o1); [discriminate Hp|]. simpl. auto.
Qed.

Lemma plain_stream_starts_plain_session_witness :
  begins_with_client_hello tls_client_hello (data_of Scenario.plain_peer)
    = false /\
  In (Invoke (h_on_detect ec_success false))
     (trace (Scenario.finished false Scenario.plain_peer)) /\
  failed ec_success = false /\
  count is_plain_start (trace (Scenario.finished false Scenario.plain_peer))
    = 1%nat.
Proof.
  assert (Hin : In (Invoke (h_on_detect ec_success false))
                   (trace (Scenario.finished false Scenario.plain_peer))).
  { vm_compute. repeat (try (left; reflexivity); right). }
  split; [reflexivity|]. split; [exact Hin|]. split; [reflexivity|].
  destruct (plain_stream_starts_plain_session
              tls_client_hello 100 Scenario.server_memory false
              Scenario.plain_peer Scenario.fd Scenario.ctx Scenario.doc_root
              [Poll; Complete] ec_success false eq_refl Hin eq_refl)
    as (_ & _ & _ & H & _).
  exact H.
Defined.

(** C3, as the specification words it, fails: for a plain request whose
    detection completes without an error, no plain session is launched with
    both the context and the document root. *)
Lemma plain_session_not_given_context :
  begins_with_client_hello tls_client_hello (data_of Scenario.plain_peer)
    = false /\
  In (Invoke (h_on_detect ec_success false))
     (trace (Scenario.finished false Scenario.plain_peer)) /\
  ~ launched_with_whole_config is_plain_start Scenario.ctx Scenario.doc_root
      (trace (Scenario.finished false Scenario.plain_peer)).
Proof.
  split; [reflexivity|]. split.
  - vm_compute. repeat (try (left; reflexivity); right).
  - intros (e & Hin & Hp & Hc & _). vm_compute in Hin.
    repeat (destruct Hin as [<-|Hin]; [discriminate|]). contradiction.
Qed.

(** ** The failure path *)

(** C4. When the detection completes with an error, [on_detect] calls
    [fail] with that error and the tag "detect" and nothing else: no session
    is launched.  The handler was the last owner of the detector, so the
    detector is destroyed and its stream, which still owns the socket, closes
    it; this is all that happens on the connection.  The error is the
    timeout or a transport error of the connection. *)
Theorem failed_detection_reports_and_closes :
  forall (is_hello : bytes -> option bool) (now : time) (m : memory)
         (inside : bool) (incoming : list arrival) (s : socket)
         (ctx doc_root : addr) (sched : list action)
         (ec : error_code) (r : bool),
    In (Invoke (h_on_detect ec r))
       (trace (after is_hello now m inside incoming s ctx doc_root sched)) ->
    failed ec = true ->
    let w := after is_hello now m inside incoming s ctx doc_root sched in
    (forall d, on_detect ec r d = (d, [Fail ec "detect"])) /\
    (exists reads,
        trace w =
        trace_armed ++ map Read_some reads
        ++ [Invoke (h_on_detect ec r); Fail ec "detect"; Socket_closed s]) /\
    count is_failure (trace w) = 1%nat /\
    count is_ssl_start (trace w) = 0%nat /\
    count is_plain_start (trace w) = 0%nat /\
    count is_close (trace w) = 1%nat /\
    this_ w = None /\ use_count w = 0%nat /\
    (ec = ec_timeout \/
     exists t errno cat,
       In (Broken t errno cat) incoming /\ ec = ErrorCode (Z.pos errno) cat).
Proof.
  intros is_hello now m inside incoming s ctx doc_root sched ec r Hin Hf w.
  subst w.
  pose proof (reached_after is_hello now m inside incoming s ctx doc_root sched)
    as H.
  destruct (on_detect_called _ _ _ _ _ _ _ _ _ _ _ H Hin)
    as (c & t & t' & o & Ht & Ho & -> & -> & Hw).
  destruct (detect_ssl_failed _ _ _ _ _ _ _ Ho Hf) as (Hr & _ & Herr).
  rewrite Hw. cbn [trace this_ use_count].
  rewrite !count_done by reflexivity.
  unfold on_detect. rewrite Hf. simpl.
  split; [auto|]. split; [|auto 10].
  exists (det_reads o).
  destruct (trace_completion_cases s ctx doc_root t o)
    as [(_ & E)|[(Hf' & _)|(Hf' & _)]]; [|congruence|congruence].
  now rewrite E.
Qed.

Lemma failed_detection_reports_and_closes_witness :
  In (Invoke (h_on_detect (ErrorCode 104 system_category) false))
     (trace (Scenario.finished false Scenario.broken_peer)) /\
  failed (ErrorCode 104 system_category) = true /\
  count is_close (trace (Scenario.finished false Scenario.broken_peer)) = 1%nat.
Proof.
  assert (Hin : In (Invoke (h_on_detect (ErrorCode 104 system_category) false))
                   (trace (Scenario.finished false Scenario.broken_peer))).
  { vm_compute. repeat (try (left; reflexivity); right). }
  split; [exact Hin|]. split; [reflexivity|].
  destruct (failed_detection_reports_and_closes
              tls_client_hello 100 Scenario.server_memory false
              Scenario.broken_peer Scenario.fd Scenario.ctx Scenario.doc_root
              [Poll; Complete] (ErrorCode 104 system_category) false
              Hin eq_refl)
    as (_ & _ & _ & _ & _ & H & _).
  exact H.
Defined.

(** ** The buffer *)

Lemma buffer_given_launch (e : event) (buf : bytes) :
  buffer_given e = Some buf -> is_ssl_start e || is_plain_start e = true.
Proof.
  destruct e; simpl; intros H; try discriminate H; reflexivity.
Qed.

(** C5. The buffer is empty when the detector is constructed, [run] and
    [on_run] leave it alone, and a successful [on_detect] passes it on as it
    is and keeps nothing.  So the buffer a session is launched with is
    exactly the bytes the detection read from the connection: the chunks of
    the trace, each once and in order, which are the data of an initial
    segment of what the peer sent. *)
Theorem handler_buffer_is_what_was_read :
  forall (is_hello : bytes -> option bool) (now : time) (m : memory)
         (inside : bool) (incoming : list arrival) (s : socket)
         (ctx doc_root : addr) (sched : list action)
         (e : event) (buf : bytes),
    In e (trace (after is_hello now m inside incoming s ctx doc_root sched)) ->
    buffer_given e = Some buf ->
    let w := after is_hello now m inside incoming s ctx doc_root sched in
    buffer_ (make_detect_session s ctx doc_root) = [] /\
    (forall d, buffer_ (fst (run d)) = buffer_ d) /\
    (forall t d, buffer_ (fst (on_run t d)) = buffer_ d) /\
    (forall ec r d,
        failed ec = false ->
        exists e', snd (on_detect ec r d) = [e'] /\
                   buffer_given e' = Some (buffer_ d) /\
                   buffer_ (fst (on_detect ec r d)) = []) /\
    buf = reads_of (trace w) /\
    exists consumed,
      incoming = consumed ++ wire w /\
      forallb is_data consumed = true /\
      buf = data_of consumed.
Proof.
  intros is_hello now m inside incoming s ctx doc_root sched e buf Hin Hb w.
  subst w.
  split; [reflexivity|]. split; [reflexivity|]. split; [reflexivity|].
  split.
  { intros ec r d Hf. unfold on_detect. rewrite Hf.
    destruct r; eexists; repeat split. }
  pose proof (reached_after is_hello now m inside incoming s ctx doc_root sched)
    as H.
  destruct (launch_made _ _ _ _ _ _ _ _ _ _ H Hin (buffer_given_launch _ _ Hb))
    as (c & t & t' & o & Ht & Ho & Hf & Hw & He).
  assert (Hbuf : buf = det_buffer o).
  { rewrite He in Hb. destruct (det_result o); simpl in Hb; congruence. }
  rewrite Hw. cbn [trace wire].
  rewrite (reads_of_done _ _ _ _ _ _ _ _ Ho).
  split; [exact Hbuf|].
  destruct (detect_ssl_consumes _ _ _ _ _ _ _ Ho) as (consumed & Hc & Hd & _ & Hdata).
  exists consumed. simpl in Hd. rewrite Hbuf. auto.
Qed.

Lemma handler_buffer_is_what_was_read_witness :
  In (Ssl_session_run
        (SslHttpSession (TcpStream (Some Scenario.fd) (Some 30100)) Scenario.ctx
                        Scenario.client_hello Scenario.doc_root))
     (trace (Scenario.finished true Scenario.secure_peer)) /\
  Scenario.client_hello
  = reads_of (trace (Scenario.finished true Scenario.secure_peer)).
Proof.
  assert (Hin : In (Ssl_session_run
                      (SslHttpSession (TcpStream (Some Scenario.fd) (Some 30100))
                                      Scenario.ctx Scenario.client_hello
                                      Scenario.doc_root))
                   (trace (Scenario.finished true Scenario.secure_peer))).
  { vm_compute. repeat (try (left; reflexivity); right). }
  split; [exact Hin|].
  destruct (handler_buffer_is_what_was_read
              tls_client_hello 100 Scenario.server_memory true
              Scenario.secure_peer Scenario.fd Scenario.ctx Scenario.doc_root
              [Poll; Complete] _ Scenario.client_hello Hin eq_refl)
    as (_ & _ & _ & _ & H & _).
  exact H.
Defined.

(** ** The deadline *)

(** Nothing happens to a detector that is gone. *)
Lemma gone_is_final (is_hello : bytes -> option bool) (sched : list action) :
  forall w,
    this_ w = None ->
    trace (run_schedule is_hello sched w) = trace w /\
    this_ (run_schedule is_hello sched w) = None.
Proof.
  induction sched as [|a sched IH]; intros w Hw; simpl.
  - auto.
  - assert (H : trace (step is_hello w a) = trace w /\
                this_ (step is_hello w a) = None).
    { destruct w as [c m d n i q b l tr]. simpl in Hw. subst d.
      destruct a as [dt | | ]; simpl.
      - auto.
      - unfold poll. simpl. destruct q; simpl; auto.
      - unfold complete. simpl. destruct b; auto. }
    destruct H as (Ht & Hn). destruct (IH _ Hn) as (Ht' & Hn').
    split; congruence.
Qed.

(** Counting timers and detections in the three shapes. *)
Lemma reached_once (is_hello : bytes -> option bool) (now : time) (m : memory)
    (inside : bool) (incoming : list arrival) (s : socket)
    (ctx doc_root : addr) (w : world) :
  reached is_hello now m inside incoming s ctx doc_root w ->
  (count is_expires_after (trace w) <= 1)%nat /\
  (count is_async_detect (trace w) <= 1)%nat /\
  (count is_on_run (trace w) <= 1)%nat.
Proof.
  intros [c Hc Hi | c t Ht | c t t' o Ht Ho]; cbn [trace];
    try (cbv; lia).
  rewrite !count_done by reflexivity.
  unfold on_detect. destruct (failed (det_ec o)); [|destruct (det_result o)];
    cbv; lia.
Qed.

(** C6. [on_run] first sets the expiry of the stream to 30 seconds from now
    and then starts the detection.  While a detection is outstanding that is
    the one deadline there is; when what arrives before it neither decides
    nor breaks the connection, the detection ends with the timeout, which
    [on_detect] reports through [fail] before the detector goes and closes
    the socket, and nothing happens afterwards: no timer is set again and no
    detection is started again, on any schedule. *)
Theorem deadline_is_thirty_seconds_and_final :
  forall (is_hello : bytes -> option bool) (now : time) (m : memory)
         (inside : bool) (incoming : list arrival) (s : socket)
         (ctx doc_root : addr) (sched : list action)
         (d : detect_session) (dl : time),
    let w := after is_hello now m inside incoming s ctx doc_root sched in
    this_ w = Some d -> detecting w = true ->
    expiry (stream_ d) = Some dl ->
    detect_ssl is_hello None (clock w) (buffer_ d) []
               (arrived_before dl (wire w)) = None ->
    (forall t d',
        snd (on_run t d') = [Expires_after (seconds 30); Async_detect_ssl] /\
        expiry (stream_ (fst (on_run t d'))) = Some (t + 30000)) /\
    (exists t, now <= t <= clock w /\ dl = t + 30000 /\ trace w = trace_armed) /\
    (exists reads,
        trace (complete is_hello w) =
        trace w ++ map Read_some reads
        ++ [Invoke (h_on_detect ec_timeout false);
            Fail ec_timeout "detect"; Socket_closed s]) /\
    (forall more,
        trace (run_schedule is_hello more (complete is_hello w))
        = trace (complete is_hello w)) /\
    (forall sched',
        let tr := trace (after is_hello now m inside incoming s ctx doc_root
                               sched') in
        (count is_expires_after tr <= 1)%nat /\
        (count is_async_detect tr <= 1)%nat).
Proof.
  intros is_hello now m inside incoming s ctx doc_root sched d dl w.
  pose proof (reached_after is_hello now m inside incoming s ctx doc_root sched)
    as H.
  fold w in H. clearbody w.
  intros Hd Hdet Hexp Hnone.
  split; [intros t d'; split; reflexivity|].
  assert (Honce : forall sched',
             let tr := trace (after is_hello now m inside incoming s ctx
                                    doc_root sched') in
             (count is_expires_after tr <= 1)%nat /\
             (count is_async_detect tr <= 1)%nat).
  { intros sched' tr. subst tr.
    destruct (reached_once _ _ _ _ _ _ _ _ _
                (reached_after is_hello now m inside incoming s ctx doc_root
                               sched')) as (H1 & H2 & _).
    auto. }
  destruct H as [c Hc Hi | c t Ht | c t t' o Ht Ho];
    cbn [this_ detecting] in Hd, Hdet; try discriminate.
  injection Hd as <-. cbn [armed stream_ expiry] in Hexp.
  injection Hexp as <-.
  cbn [clock wire trace armed buffer_] in *.
  destruct (detect_ssl_timeout is_hello _ _ _ _ _ Hnone) as (o & Ho & Hec & Hr).
  assert (Hc : exists reads,
             trace (complete is_hello
                      (World c m (Some (armed s ctx doc_root t [])) 1 inside []
                             true incoming trace_armed)) =
             trace_armed ++ map Read_some reads
             ++ [Invoke (h_on_detect ec_timeout false);
                 Fail ec_timeout "detect"; Socket_closed s] /\
             this_ (complete is_hello
                      (World c m (Some (armed s ctx doc_root t [])) 1 inside []
                             true incoming trace_armed)) = None).
  { exists (det_reads o). unfold complete. simpl.
    unfold time in Ho. rewrite Ho. unfold invoke. simpl.
    rewrite Hec, Hr. simpl. world_simpl.
    rewrite <- !app_assoc. simpl. auto. }
  destruct Hc as (reads & Htr & Hgone).
  split; [exists t; repeat split; solve [lia | reflexivity]|].
  split; [exists reads; exact Htr|].
  split; [|exact Honce].
  intros more. apply gone_is_final. exact Hgone.
Qed.

Lemma deadline_is_thirty_seconds_and_final_witness :
  let w := after tls_client_hello 100 Scenario.server_memory false
                 Scenario.slow_peer Scenario.fd Scenario.ctx Scenario.doc_root
                 [Poll] in
  let d := armed Scenario.fd Scenario.ctx Scenario.doc_root 100 [] in
  this_ w = Some d /\ detecting w = true /\
  expiry (stream_ d) = Some 30100 /\
  detect_ssl tls_client_hello None (clock w) (buffer_ d) []
             (arrived_before 30100 (wire w)) = None /\
  exists reads,
    trace (complete tls_client_hello w) =
    trace w ++ map Read_some reads
    ++ [Invoke (h_on_detect ec_timeout false);
        Fail ec_timeout "detect"; Socket_closed Scenario.fd].
Proof.
  intros w d.
  split; [reflexivity|]. split; [reflexivity|]. split; [reflexivity|].
  split; [reflexivity|].
  destruct (deadline_is_thirty_seconds_and_final
              tls_client_hello 100 Scenario.server_memory false
              Scenario.slow_peer Scenario.fd Scenario.ctx Scenario.doc_root
              [Poll] d 30100 eq_refl eq_refl eq_refl eq_refl)
    as (_ & _ & H & _).
  exact H.
Defined.

(** ** What [run] does *)

Lemma reached_on_run_after_poll (is_hello : bytes -> option bool) (now : time)
    (m : memory) (inside : bool) (incoming : list arrival) (s : socket)
    (ctx doc_root : addr) (w : world) :
  reached is_hello now m inside incoming s ctx doc_root w ->
  count is_on_run (trace (step is_hello w Poll)) = 1%nat.
Proof.
  intros [c Hc Hi | c t Ht | c t t' o Ht Ho]; simpl.
  - reflexivity.
  - reflexivity.
  - change (count is_on_run
              (trace_armed ++ trace_completion s ctx doc_root t o) = 1%nat).
    rewrite count_done by reflexivity.
    unfold on_detect. destruct (failed (det_ec o)); [|destruct (det_result o)];
      reflexivity.
Qed.

(** C7, as the code has it. [run] makes one call, the dispatch of [on_run]
    to the executor of the stream, and neither waits for the peer nor lets
    time pass.  When the caller does not run inside that executor, [on_run]
    is queued and nothing else happens inside [run]: no timer is set and no
    detection is started.  When the caller does, [on_run] is called before
    [run] returns, so the timer is set and the detection is started inside
    [run].  Either way [on_run] is called at most once on every schedule,
    and exactly once as soon as the executor has polled its queue. *)
Theorem run_dispatches_on_run :
  forall (is_hello : bytes -> option bool) (now : time) (m : memory)
         (inside : bool) (incoming : list arrival) (s : socket)
         (ctx doc_root : addr) (sched : list action),
    let w0 := accept now m inside incoming s ctx doc_root in
    let w1 := call_run w0 in
    (forall d, run d = (d, [Dispatch_on_run])) /\
    clock w1 = now /\ wire w1 = incoming /\
    (if inside
     then trace w1 = trace_armed /\ queue w1 = [] /\ detecting w1 = true
     else trace w1 = [Dispatch_on_run] /\ queue w1 = [h_on_run] /\
          detecting w1 = false /\
          this_ w1 = Some (make_detect_session s ctx doc_root)) /\
    (count is_on_run
       (trace (after is_hello now m inside incoming s ctx doc_root sched))
     <= 1)%nat /\
    count is_on_run
      (trace (after is_hello now m inside incoming s ctx doc_root
                    (sched ++ [Poll]))) = 1%nat.
Proof.
  intros is_hello now m inside incoming s ctx doc_root sched w0 w1.
  subst w0 w1.
  split; [reflexivity|].
  split; [destruct inside; reflexivity|].
  split; [destruct inside; reflexivity|].
  split; [destruct inside; repeat split|].
  pose proof (reached_after is_hello now m inside incoming s ctx doc_root sched)
    as H.
  split.
  - apply (reached_once _ _ _ _ _ _ _ _ _ H).
  - unfold after, run_schedule in *. rewrite fold_left_app. simpl.
    apply (reached_on_run_after_poll _ _ _ _ _ _ _ _ _ H).
Qed.

(** C7, as the specification words it, fails: called from inside the
    executor of the stream, [run] sets the timer and starts the detection
    before it returns. *)
Lemma run_may_call_on_run_inline :
  let w := accept 100 Scenario.server_memory true Scenario.plain_peer
                  Scenario.fd Scenario.ctx Scenario.doc_root in
  count is_expires_after (trace w) = 0%nat /\
  count is_expires_after (trace (call_run w)) = 1%nat /\
  count is_async_detect (trace (call_run w)) = 1%nat /\
  ~ run_only_schedules w.
Proof.
  intros w. split; [reflexivity|]. split; [reflexivity|].
  split; [reflexivity|].
  intros (_ & He & _). vm_compute in He. discriminate He.
Qed.

(** ** The configuration *)

(** No step of the executor writes to the memory that holds the
    configuration. *)
Lemma mem_release (w : world) : mem (release w) = mem w.
Proof.
  destruct w as [c m d n i q b l tr]. unfold release. simpl.
  destruct n as [|[|n]]; try reflexivity.
  unfold destroy. simpl. destruct d; reflexivity.
Qed.

Lemma mem_perform (calls : list event) :
  forall w, mem (fold_left perform calls w) = mem w.
Proof.
  induction calls as [|e calls IH]; intros w; simpl.
  - reflexivity.
  - rewrite IH. destruct w as [c m d n i q b l tr].
    destruct e; reflexivity.
Qed.

Lemma mem_invoke (h : handler) (w : world) : mem (invoke h w) = mem w.
Proof.
  unfold invoke. destruct (this_ w) as [d|] eqn:E; [|reflexivity].
  destruct (match h with
            | h_on_run => on_run (clock w) d
            | h_on_detect ec result => on_detect ec result d
            end) as [d' calls].
  rewrite mem_release, mem_perform.
  destruct w as [c m d0 n i q b l tr]. reflexivity.
Qed.

Lemma mem_call_run (w : world) : mem (call_run w) = mem w.
Proof.
  unfold call_run. destruct (this_ w) as [d|] eqn:E; [|reflexivity].
  simpl. unfold dispatch.
  destruct (in_executor _) eqn:Ei.
  - rewrite mem_invoke. destruct w; reflexivity.
  - destruct w; reflexivity.
Qed.

Lemma mem_step (is_hello : bytes -> option bool) (w : world) (a : action) :
  mem (step is_hello w a) = mem w.
Proof.
  destruct a as [dt | | ]; simpl.
  - destruct w; reflexivity.
  - unfold poll. destruct (queue w) as [|h q] eqn:E; [reflexivity|].
    rewrite mem_invoke. destruct w; reflexivity.
  - unfold complete. destruct (detecting w); [|reflexivity].
    destruct (this_ w) as [d|]; [|reflexivity].
    destruct (detect_ssl _ _ _ _ _ _) as [o|]; [|reflexivity].
    rewrite mem_invoke. reflexivity.
Qed.

(** C9, as the code has it. No operation of the detector writes to the
    memory that holds the configuration, and none changes the two references
    the detector keeps.  What a session is given are those very references:
    the SSL session the context and the document root, the plain session the
    document root and no context. *)
Theorem configuration_untouched_and_passed_by_reference :
  forall (is_hello : bytes -> option bool) (now : time) (m : memory)
         (inside : bool) (incoming : list arrival) (s : socket)
         (ctx doc_root : addr) (sched : list action),
    let w := after is_hello now m inside incoming s ctx doc_root sched in
    mem (accept now m inside incoming s ctx doc_root) = m /\
    (forall w', mem (call_run w') = mem w') /\
    (forall h w', mem (invoke h w') = mem w') /\
    (forall w' a, mem (step is_hello w' a) = mem w') /\
    mem w = m /\
    (forall d, ctx_ (fst (run d)) = ctx_ d /\
               doc_root_ (fst (run d)) = doc_root_ d) /\
    (forall t d, ctx_ (fst (on_run t d)) = ctx_ d /\
                 doc_root_ (fst (on_run t d)) = doc_root_ d) /\
    (forall ec r d, ctx_ (fst (on_detect ec r d)) = ctx_ d /\
                    doc_root_ (fst (on_detect ec r d)) = doc_root_ d) /\
    (forall e, In e (trace w) -> is_ssl_start e = true ->
               ctx_given e = Some ctx /\ doc_root_given e = Some doc_root) /\
    (forall e, In e (trace w) -> is_plain_start e = true ->
               ctx_given e = None /\ doc_root_given e = Some doc_root).
Proof.
  intros is_hello now m inside incoming s ctx doc_root sched w. subst w.
  pose proof (reached_after is_hello now m inside incoming s ctx doc_root sched)
    as H.
  split; [reflexivity|]. split; [exact mem_call_run|].
  split; [exact mem_invoke|]. split; [exact (mem_step is_hello)|].
  split; [destruct H; reflexivity|].
  split; [intros d; split; reflexivity|].
  split; [intros t d; split; reflexivity|].
  split.
  { intros ec r d. unfold on_detect.
    destruct (failed ec); [|destruct r]; split; reflexivity. }
  split.
  - intros e He Hs.
    assert (Hl : is_ssl_start e || is_plain_start e = true)
      by (rewrite Hs; reflexivity).
    destruct (launch_made _ _ _ _ _ _ _ _ _ _ H He Hl)
      as (_ & t1 & _ & o1 & _ & _ & _ & _ & ->).
    destruct (det_result o1); [|discriminate Hs]. simpl. auto.
  - intros e He Hp.
    assert (Hl : is_ssl_start e || is_plain_start e = true)
      by (rewrite Hp; apply orb_true_r).
    destruct (launch_made _ _ _ _ _ _ _ _ _ _ H He Hl)
      as (_ & t1 & _ & o1 & _ & _ & _ & _ & ->).
    destruct (det_result o1); [discriminate Hp|]. simpl. auto.
Qed.

(** C9, as the specification words it, fails: the session selected for a
    plain request is not given the context. *)
Lemma plain_launch_lacks_context :
  count is_plain_start (trace (Scenario.finished true Scenario.plain_peer))
    = 1%nat /\
  ~ passes_whole_config Scenario.ctx Scenario.doc_root
      (trace (Scenario.finished true Scenario.plain_peer)).
Proof.
  split; [reflexivity|].
  intros H.
  destruct (H (Plain_session_run
                 (PlainHttpSession (TcpStream (Some Scenario.fd) (Some 30100))
                                   Scenario.get_request Scenario.doc_root)))
    as (Hc & _).
  - vm_compute. repeat (try (left; reflexivity); right).
  - reflexivity.
  - discriminate Hc.
Qed.

(** ** Construction *)

(** C10. Constructing the detector reads nothing, queues nothing and sets no
    timer: the stream it builds never expires.  The expiry is set when
    [on_run] runs, to 30 seconds after that moment, which is not before the
    moment [run] was called; the time between construction and the call of
    [run] is not part of it. *)
Theorem construction_arms_nothing :
  forall (is_hello : bytes -> option bool) (now : time) (m : memory)
         (inside : bool) (incoming : list arrival) (s : socket)
         (ctx doc_root : addr) (dt1 dt2 : N),
    let w0 := accept now m inside incoming s ctx doc_root in
    let w1 := start (step is_hello w0 (Tick dt1)) in
    let w2 := run_schedule is_hello [Tick dt2; Poll] w1 in
    trace w0 = [] /\ wire w0 = incoming /\ queue w0 = [] /\
    detecting w0 = false /\
    this_ w0 = Some (make_detect_session s ctx doc_root) /\
    expiry (stream_ (make_detect_session s ctx doc_root)) = None /\
    buffer_ (make_detect_session s ctx doc_root) = [] /\
    count is_expires_after (trace (step is_hello w0 (Tick dt1))) = 0%nat /\
    exists t,
      t = (if inside then now + Z.of_N dt1
           else now + Z.of_N dt1 + Z.of_N dt2) /\
      now + Z.of_N dt1 <= t /\
      this_ w2 = Some (armed s ctx doc_root t []) /\
      expiry (stream_ (armed s ctx doc_root t [])) = Some (t + seconds 30) /\
      wire w2 = incoming.
Proof.
  intros is_hello now m inside incoming s ctx doc_root dt1 dt2 w0 w1 w2.
  subst w0 w1 w2.
  repeat (split; [reflexivity|]).
  eexists. split; [reflexivity|].
  destruct inside; simpl; repeat split; lia.
Qed.

(** ** The scenarios of the specification *)

(** A plain request is handed to the plain session, whole. *)
Example plain_request_goes_to_plain_session :
  filter (fun e => is_ssl_start e || is_plain_start e || is_failure e)
         (trace (Scenario.finished false Scenario.plain_peer))
  = [Plain_session_run
       (PlainHttpSession (TcpStream (Some Scenario.fd) (Some 30100))
                         Scenario.get_request Scenario.doc_root)].
Proof. reflexivity. Qed.

(** A client hello is handed to the SSL session, whole. *)
Example client_hello_goes_to_ssl_session :
  filter (fun e => is_ssl_start e || is_plain_start e || is_failure e)
         (trace (Scenario.finished false Scenario.secure_peer))
  = [Ssl_session_run
       (SslHttpSession (TcpStream (Some Scenario.fd) (Some 30100))
                       Scenario.ctx Scenario.client_hello Scenario.doc_root)].
Proof. reflexivity. Qed.

(** A client hello that arrives byte by byte is recognised after nine
    reads; the nine bytes are handed over and the rest is still to come. *)
Example dripping_hello_goes_to_ssl_session :
  filter (fun e => is_ssl_start e || is_plain_start e || is_failure e)
         (trace (Scenario.finished false Scenario.dripping_peer))
  = [Ssl_session_run
       (SslHttpSession (TcpStream (Some Scenario.fd) (Some 30100))
                       Scenario.ctx (firstn 9 Scenario.client_hello)
                       Scenario.doc_root)] /\
  count is_on_detect (trace (Scenario.finished false Scenario.dripping_peer))
  = 1%nat /\
  data_of (wire (Scenario.finished false Scenario.dripping_peer))
  = skipn 9 Scenario.client_hello.
Proof. repeat split. Qed.

(** A peer that stays silent is given up at the deadline. *)
Example silent_peer_times_out :
  trace (after tls_client_hello 100 Scenario.server_memory false []
               Scenario.fd Scenario.ctx Scenario.doc_root [Poll; Complete])
  = [Dispatch_on_run; Invoke h_on_run; Expires_after 30000; Async_detect_ssl;
     Invoke (h_on_detect ec_timeout false); Fail ec_timeout "detect";
     Socket_closed Scenario.fd].
Proof. reflexivity. Qed.

(** ** Beyond the dispatch: ownership, order and time *)

Section Chain.

Variable is_tls_client_hello : bytes -> option bool.
Variables (now0 : time) (m : memory) (inside : bool).
Variables (incoming : list arrival) (s : socket) (ctx doc_root : addr).

(** What [complete] makes of an outstanding detection. *)
Lemma complete_detecting (c t : time) :
  exists o,
    detect_ssl is_tls_client_hello (Some (t + seconds 30)) c [] [] incoming
      = Some o /\
    complete is_tls_client_hello (world_detecting m inside incoming s ctx doc_root c t)
      = world_done m inside s ctx doc_root (Z.max c (det_time o)) t o.
Proof.
  destruct (detect_ssl_completes is_tls_client_hello (t + seconds 30)
              incoming c [] []) as [o Ho].
  exists o. split; [exact Ho|].
  unfold complete, world_detecting, world_done. simpl.
  unfold time in Ho. rewrite Ho. unfold invoke. simpl.
  unfold trace_completion, on_detect, armed.
  destruct (failed (det_ec o)); [|destruct (det_result o)];
    simpl; world_simpl; rewrite <- ?app_assoc; reflexivity.
Qed.






End Chain.

Section ChainFacts.

Variable is_tls_client_hello : bytes -> option bool.
Variables (now0 : time) (m : memory) (inside : bool).
Variables (incoming : list arrival) (s : socket) (ctx doc_root : addr).

(** After a poll [on_run] has run: the detection is outstanding or over. *)
Lemma reached_polled (w : world) :
  reached is_tls_client_hello now0 m inside incoming s ctx doc_root w ->
  (exists c t, now0 <= t <= c /\
               step is_tls_client_hello w Poll
               = world_detecting m inside incoming s ctx doc_root c t) \/
  (this_ w = None /\ step is_tls_client_hello w Poll = w).
Proof.
  intros [c Hc Hi | c t Ht | c t t' o Ht Ho].
  - left. exists c, c. split; [lia|]. rewrite Hi. reflexivity.
  - left. exists c, t. split; [lia|]. reflexivity.
  - right. split; reflexivity.
Qed.

(** Polling and completing ends every chain. *)
Lemma chain_finishes (w : world) :
  reached is_tls_client_hello now0 m inside incoming s ctx doc_root w ->
  this_ (run_schedule is_tls_client_hello [Poll; Complete] w) = None.
Proof.
  intros H.
  change (this_ (complete is_tls_client_hello
                   (step is_tls_client_hello w Poll)) = None).
  destruct (reached_polled w H) as [(c & t & _ & ->)|(Hn & ->)].
  - destruct (complete_detecting is_tls_client_hello m inside incoming s ctx
                doc_root c t) as (o & _ & ->).
    reflexivity.
  - destruct w as [c m' d n i q b l tr]. simpl in Hn. subst d.
    unfold complete. simpl. destruct b; reflexivity.
Qed.


(** Where a close can sit in the trace of a finished detector. *)
Lemma close_in_done (t : time) (o : detection) (fd : socket) :
  In (Socket_closed fd) (trace_armed ++ trace_completion s ctx doc_root t o) ->
  fd = s.
Proof.
  intros H. apply in_app_or in H. destruct H as [H|H].
  - simpl in H. intuition discriminate.
  - destruct (trace_completion_cases s ctx doc_root t o)
      as [(_ & E)|[(_ & _ & E)|(_ & _ & E)]];
      rewrite E in H; apply in_app_or in H; destruct H as [H|H];
      try (apply in_map_iff in H; destruct H as (? & ? & _); discriminate);
      simpl in H;
      repeat (destruct H as [H|H]; [try discriminate H|]);
      try contradiction.
    now injection H as <-.
Qed.

End ChainFacts.

Lemma stream_given_launch (e : event) (st : tcp_stream) :
  stream_given e = Some st -> is_ssl_start e || is_plain_start e = true.
Proof.
  destruct e; simpl; intros H; try discriminate H; reflexivity.
Qed.

(** X1. Each handler the detector binds holds a [shared_ptr] to it, and
    nothing else does once [run] has returned: on every schedule the use
    count is the number of handlers queued or stored in an outstanding
    detection, it is one while the detector is alive, and the detector is
    destroyed exactly when it drops to zero, which polling the executor and
    completing the detection always brings about. *)
Theorem detector_lives_as_long_as_its_handlers :
  forall (is_hello : bytes -> option bool) (now : time) (m : memory)
         (inside : bool) (incoming : list arrival) (s : socket)
         (ctx doc_root : addr) (sched : list action),
    let w := after is_hello now m inside incoming s ctx doc_root sched in
    let w' := after is_hello now m inside incoming s ctx doc_root
                    (sched ++ [Poll; Complete]) in
    use_count w = owners w /\
    match this_ w with
    | Some _ => use_count w = 1%nat
    | None => use_count w = 0%nat
    end /\
    this_ w' = None /\ use_count w' = 0%nat /\ owners w' = 0%nat.
Proof.
  intros is_hello now m inside incoming s ctx doc_root sched w w'.
  pose proof (reached_after is_hello now m inside incoming s ctx doc_root sched)
    as H.
  pose proof (reached_after is_hello now m inside incoming s ctx doc_root
                            (sched ++ [Poll; Complete])) as H'.
  assert (Hn : this_ w' = None).
  { subst w'. unfold after, run_schedule. rewrite fold_left_app.
    apply (chain_finishes is_hello now m inside incoming s ctx doc_root).
    exact H. }
  fold w in H. fold w' in H'. clearbody w w'.
  split; [destruct H; reflexivity|].
  split; [destruct H; reflexivity|].
  split; [exact Hn|].
  destruct H' as [c Hc Hi | c t Ht | c t t' o Ht Ho];
    try discriminate Hn; split; reflexivity.
Qed.

(** X2. The socket has one owner at a time.  While the detector is alive
    its stream owns the socket the listener accepted, and nothing has been
    launched or closed; once it is gone the socket has either been moved into
    exactly one session or been closed exactly once, never both and never
    neither.  No other socket is ever handed over or closed. *)
Theorem socket_is_handed_over_or_closed_once :
  forall (is_hello : bytes -> option bool) (now : time) (m : memory)
         (inside : bool) (incoming : list arrival) (s : socket)
         (ctx doc_root : addr) (sched : list action),
    let w := after is_hello now m inside incoming s ctx doc_root sched in
    match this_ w with
    | Some d =>
      sock (stream_ d) = Some s /\
      count is_launch (trace w) = 0%nat /\ count is_close (trace w) = 0%nat
    | None =>
      (count is_launch (trace w) + count is_close (trace w) = 1)%nat
    end /\
    (forall e st, In e (trace w) -> stream_given e = Some st ->
                  sock st = Some s) /\
    (forall fd, In (Socket_closed fd) (trace w) -> fd = s).
Proof.
  intros is_hello now m inside incoming s ctx doc_root sched w.
  pose proof (reached_after is_hello now m inside incoming s ctx doc_root sched)
    as H.
  fold w in H. clearbody w.
  split; [|split].
  - destruct H as [c Hc Hi | c t Ht | c t t' o Ht Ho]; cbn [this_ trace].
    + repeat split.
    + repeat split.
    + rewrite !count_done by reflexivity.
      unfold on_detect.
      destruct (failed (det_ec o)); [|destruct (det_result o)]; reflexivity.
  - intros e st He Hs.
    destruct (launch_made _ _ _ _ _ _ _ _ _ _ H He (stream_given_launch _ _ Hs))
      as (_ & t & _ & o & _ & _ & _ & _ & ->).
    destruct (det_result o); simpl in Hs; injection Hs as <-; reflexivity.
  - intros fd Hfd.
    destruct H as [c Hc Hi | c t Ht | c t t' o Ht Ho]; cbn [trace] in Hfd.
    + simpl in Hfd. intuition discriminate.
    + simpl in Hfd. intuition discriminate.
    + exact (close_in_done _ _ _ _ _ _ Hfd).
Qed.

(** X3. A session launch is the last thing a detector does.  When the trace
    holds a launch, the launch is its final event, nothing before it is a
    launch, and no later step of the executor adds anything: after the
    hand-over the detector neither reads, nor sets a timer, nor closes the
    socket. *)
Theorem launch_is_the_last_event :
  forall (is_hello : bytes -> option bool) (now : time) (m : memory)
         (inside : bool) (incoming : list arrival) (s : socket)
         (ctx doc_root : addr) (sched more : list action) (e : event),
    let w := after is_hello now m inside incoming s ctx doc_root sched in
    In e (trace w) -> is_launch e = true ->
    exists pre,
      trace w = pre ++ [e] /\
      count is_launch pre = 0%nat /\
      count is_close pre = 0%nat /\
      trace (run_schedule is_hello more w) = pre ++ [e].
Proof.
  intros is_hello now m inside incoming s ctx doc_root sched more e w He Hl.
  pose proof (reached_after is_hello now m inside incoming s ctx doc_root sched)
    as H.
  fold w in H. clearbody w.
  destruct (launch_made _ _ _ _ _ _ _ _ _ _ H He Hl)
    as (c & t & t' & o & _ & _ & Hf & Hw & Hev).
  exists (trace_armed ++ map Read_some (det_reads o)
          ++ [Invoke (h_on_detect (det_ec o) (det_result o))]).
  assert (Htr : trace w =
                (trace_armed ++ map Read_some (det_reads o)
                 ++ [Invoke (h_on_detect (det_ec o) (det_result o))]) ++ [e]).
  { rewrite Hw, Hev. cbn [trace].
    destruct (trace_completion_cases s ctx doc_root t o)
      as [(Hf' & _)|[(_ & Hr & E)|(_ & Hr & E)]];
      [congruence | |]; rewrite E, Hr, <- !app_assoc; reflexivity. }
  split; [exact Htr|].
  split; [rewrite !count_app, count_reads by reflexivity; reflexivity|].
  split; [rewrite !count_app, count_reads by reflexivity; reflexivity|].
  rewrite <- Htr. apply gone_is_final. rewrite Hw. reflexivity.
Qed.

Lemma launch_is_the_last_event_witness :
  let e := Ssl_session_run
             (SslHttpSession (TcpStream (Some Scenario.fd) (Some 30100))
                             Scenario.ctx Scenario.client_hello
                             Scenario.doc_root) in
  In e (trace (Scenario.finished true Scenario.secure_peer)) /\
  is_launch e = true /\
  exists pre,
    trace (Scenario.finished true Scenario.secure_peer) = pre ++ [e] /\
    count is_launch pre = 0%nat /\
    count is_close pre = 0%nat /\
    trace (run_schedule tls_client_hello [Tick 5; Complete; Poll]
                        (Scenario.finished true Scenario.secure_peer))
    = pre ++ [e].
Proof.
  intros e.
  assert (Hin : In e (trace (Scenario.finished true Scenario.secure_peer))).
  { vm_compute. repeat (try (left; reflexivity); right). }
  split; [exact Hin|]. split; [reflexivity|].
  exact (launch_is_the_last_event
           tls_client_hello 100 Scenario.server_memory true
           Scenario.secure_peer Scenario.fd Scenario.ctx Scenario.doc_root
           [Poll; Complete] [Tick 5; Complete; Poll] e Hin eq_refl).
Defined.



